(** * A shallow embedding of [scrapper.py]: the [WebScraper] crawl and report

    The Python class drives a Selenium browser: [navigate_and_extract] walks
    the pages reachable through image links, depth first and bounded by
    [max_depth], and [save_scraped_data] writes the collected records to a
    text file.  The browser and the web behind it are outside the program;
    they are modelled by a map [web] from requested locations to what the
    browser shows for them, and by a [Driver] state holding the page that is
    currently loaded together with the history of navigation requests.

    Python's [str] is modelled by [str], a list of Unicode code points,
    [int] by [Z], the [set] of visited locations by [gset str], and the
    list of records by [list].
    Exceptions are explicit: every operation yields an [outcome], and
    [try ... except Exception] is the combinator [try_except].  The
    recursion of [recursive_scrape] runs on a budget of nested frames:
    [navigate_and_extract] has room for every nesting the depth bound
    allows ([navigate_and_extract_eq]), [navigate_and_extract_within]
    has the room its caller states, as an interpreter with a recursion
    limit has.  The report is written to a [Disk] whose [open] and
    [write] can raise.
    [time.sleep] and the messages printed to the console are left out. *)

From Stdlib Require Import ZArith.
From stdpp Require Import gmap strings list pretty.

Local Open Scope string_scope.
Local Open Scope Z_scope.
Local Open Scope list_scope.

(** ** Strings *)

(** A character of a Python [str] is a Unicode code point, and a [str] is a
    sequence of them: slicing, [len] and [startswith] count code points. *)
Abbreviation char := N.
Abbreviation str := (list N).

(** A literal of the source, character by character. *)
Fixpoint lit (s : string) : str :=
  match s with
  | EmptyString => []
  | String a rest => Ascii.N_of_ascii a :: lit rest
  end.
Coercion lit : string >-> list.

(** [s.startswith(p)] *)
Fixpoint startswith (p s : str) : bool :=
  match p, s with
  | [], _ => true
  | _ :: _, [] => false
  | a :: p', b :: s' => bool_decide (a = b) && startswith p' s'
  end.
Arguments startswith : simpl never.
Arguments lit : simpl never.

(** ** Exceptions and outcomes *)

(** The exceptions Selenium raises in the operations used by the scraper,
    and those met when the report file is opened and written.  All of them
    are subclasses of Python's [Exception], so an [except Exception] clause
    catches each of them. *)
Inductive exn : Type :=
  | TimeoutException
  | WebDriverException
  | InvalidArgumentException
  | NoSuchElementException
  | StaleElementReferenceException
  | OSError
  | UnicodeEncodeError.

(** What a call does: it returns a value, raises, or (for the recursion,
    which is run on a budget of nested calls) exhausts that budget. *)
Inductive outcome (A : Type) : Type :=
  | Returns (a : A)
  | Raises (e : exn)
  | OutOfFuel.
Arguments Returns {A} a.
Arguments Raises {A} e.
Arguments OutOfFuel {A}.

(** A read from the browser that may raise. *)
Inductive attempt (A : Type) : Type :=
  | Fails (e : exn)
  | Gives (a : A).
Arguments Fails {A} e.
Arguments Gives {A} a.

Definition of_attempt {A} (x : attempt A) : outcome A :=
  match x with
  | Fails e => Raises e
  | Gives a => Returns a
  end.

(** ** The browser *)

(** An [<img>] element as the scraper reads it: [get_attribute('src')] and
    the [href] of its parent, [find_element(By.XPATH, '..').get_attribute('href')].
    [get_attribute] gives [None] for a missing attribute; either read may
    raise (a stale element handle, a missing parent). *)
Record Img : Type := {
  src : attempt (option str);
  parent_href : attempt (option str)
}.

(** A rendered document: [driver.title], [driver.current_url] (the final
    location, after redirects), the text of the [body] element (reading it
    raises when there is none) and the result of
    [find_elements(By.TAG_NAME, 'img')]. *)
Record Page : Type := {
  title : str;
  current_url : str;
  body_text : attempt str;
  img_elements : attempt (list Img)
}.

(** What [driver.get(url)] meets: a navigation failure or a document. *)
Inductive nav : Type :=
  | NavError (e : exn)
  | Loaded (p : Page).

(** The driver: the page currently loaded and the locations requested so
    far through [driver.get], oldest first. *)
Record Driver : Type := {
  page : Page;
  requests : list str
}.

(** The dictionary built by [extract_page_details]; its keys are fixed. *)
Record PageDetails : Type := {
  pd_title : str;
  pd_url : str;
  pd_page_content : str
}.

(** The state a run works on: [self.driver] and the two variables of
    [navigate_and_extract] captured by the closure [recursive_scrape]. *)
Record Run : Type := {
  driver : Driver;
  scraped_pages : list PageDetails;
  visited_urls : gset str
}.

(** ** A state and exception monad *)

Definition M (S A : Type) : Type := S -> outcome A * S.

Definition ret {S A} (a : A) : M S A := fun s => (Returns a, s).

Definition bind {S A B} (m : M S A) (k : A -> M S B) : M S B :=
  fun s =>
    match m s with
    | (Returns a, s') => k a s'
    | (Raises e, s') => (Raises e, s')
    | (OutOfFuel, s') => (OutOfFuel, s')
    end.

(** [try: body except Exception as e: handler e].  The state reached when
    the exception was raised is the state the handler starts from. *)
Definition try_except {S A} (body : M S A) (handler : exn -> M S A) : M S A :=
  fun s =>
    match body s with
    | (Raises e, s') => handler e s'
    | r => r
    end.

Definition gets {S A} (f : S -> A) : M S A := fun s => (Returns (f s), s).

Definition modify {S} (f : S -> S) : M S unit := fun s => (Returns tt, f s).

Declare Scope monad_scope.
Delimit Scope monad_scope with monad.
Notation "x <- m ;; k" := (bind m (fun x => k))
  (at level 100, m at next level, right associativity) : monad_scope.
Notation "m ;; k" := (bind m (fun _ => k))
  (at level 100, right associativity) : monad_scope.
Local Open Scope monad_scope.

(** [for x in xs: f x] *)
Fixpoint for_each {S A} (xs : list A) (f : A -> M S unit) : M S unit :=
  match xs with
  | [] => ret tt
  | x :: rest => f x ;; for_each rest f
  end.

(** [[f x for x in xs]] *)
Fixpoint comprehension {S A B} (xs : list A) (f : A -> M S B) : M S (list B) :=
  match xs with
  | [] => ret []
  | x :: rest => y <- f x ;; ys <- comprehension rest f ;; ret (y :: ys)
  end.

(** An operation on [self.driver] run inside the closure's state. *)
Definition on_driver {A} (m : M Driver A) : M Run A :=
  fun r =>
    let (o, d) := m (driver r) in
    (o, {| driver := d; scraped_pages := scraped_pages r;
           visited_urls := visited_urls r |}).

(** Reading something of the current page. *)
Definition read_page {A} (f : Page -> attempt A) : M Driver A :=
  fun d => (of_attempt (f (page d)), d).

(** ** The scraper *)

(** Python's truth value of a [str] or [None]. *)
Definition truthy (v : option str) : bool :=
  match v with
  | Some s => negb (bool_decide (s = []))
  | None => false
  end.

(** [link and link.startswith('http')] *)
Definition keeps (link : option str) : bool :=
  match link with
  | Some s => truthy link && startswith "http" s
  | None => false
  end.

(** [img.get_attribute('src') or img.find_element(By.XPATH, '..').get_attribute('href')] *)
Definition img_link (img : Img) : M Driver (option str) :=
  s <- (fun d => (of_attempt (src img), d)) ;;
  if truthy s then ret s else (fun d => (of_attempt (parent_href img), d)).

Definition extract_image_links : M Driver (list str) :=
  try_except
    (image_elements <- read_page img_elements ;;
     image_links <- comprehension image_elements img_link ;;
     ret (omap (fun link => if keeps link then link else None) image_links))
    (fun e => (* print(...) *) ret []).

Definition extract_page_details : M Driver PageDetails :=
  t <- gets (fun d => title (page d)) ;;
  u <- gets (fun d => current_url (page d)) ;;
  c <- read_page body_text ;;
  ret {| pd_title := t; pd_url := u; pd_page_content := c |}.

Section Crawl.

(** The web: what the browser meets at each location. *)
Variable web : str -> nav.

(** [self.driver.get(url)]: the request is recorded; on success the
    document becomes the current page. *)
Definition driver_get (url : str) : M Driver unit :=
  fun d =>
    match web url with
    | NavError e =>
        (Raises e, {| page := page d; requests := requests d ++ [url] |})
    | Loaded p =>
        (Returns tt, {| page := p; requests := requests d ++ [url] |})
    end.

Definition append_page (page_details : PageDetails) : M Run unit :=
  modify (fun r => {| driver := driver r;
                      scraped_pages := scraped_pages r ++ [page_details];
                      visited_urls := visited_urls r |}).

Definition add_visited (url : str) : M Run unit :=
  modify (fun r => {| driver := driver r;
                      scraped_pages := scraped_pages r;
                      visited_urls := {[url]} ∪ visited_urls r |}).

Variable max_depth : Z.

(** The closure [recursive_scrape].  [fuel] is the number of nested
    frames of the closure the interpreter has room for, each with the calls
    it makes; a call for which no room is left has the outcome [OutOfFuel].
    [time.sleep] and [print] have no effect on the state. *)
Fixpoint recursive_scrape (fuel : nat) (current_url : str)
    (current_depth : Z) : M Run unit :=
  match fuel with
  | O => fun r => (OutOfFuel, r)
  | S fuel' =>
      fun r =>
        if (current_depth >? max_depth)
           || bool_decide (current_url ∈ visited_urls r)
        then ret tt r
        else
          try_except
            (on_driver (driver_get current_url) ;;
             page_details <- on_driver extract_page_details ;;
             append_page page_details ;;
             add_visited current_url ;;
             image_links <- on_driver extract_image_links ;;
             for_each image_links
               (fun link => recursive_scrape fuel' link (current_depth + 1)))
            (fun e => (* print(...) *) ret tt)
            r
  end.

End Crawl.

(** The depth grows by one per nested call and a call beyond [max_depth]
    returns at once, so this many nested calls are never exceeded. *)
Definition call_budget (max_depth : Z) : nat := S (Z.to_nat (max_depth + 1)).

(** [navigate_and_extract(url, max_depth)], run on the driver [d]: the
    outcome of the call and the driver it leaves.  This is the call on an
    interpreter with room for every nesting the depth bound allows. *)
Definition navigate_and_extract (web : str -> nav) (url : str)
    (max_depth : Z) (d : Driver) : outcome (list PageDetails) * Driver :=
  let start := {| driver := d; scraped_pages := []; visited_urls := ∅ |} in
  match recursive_scrape web max_depth (call_budget max_depth) url 0 start with
  | (Returns _, r) => (Returns (scraped_pages r), driver r)
  | (Raises e, r) => (Raises e, driver r)
  | (OutOfFuel, r) => (OutOfFuel, driver r)
  end.

(** The same call on an interpreter whose recursion limit leaves room for
    [room] nested frames of [recursive_scrape].  When a crawl nests deeper
    than that, CPython raises [RecursionError] somewhere in the frames
    nearest to the limit, and their [except Exception] swallows it; what
    the call then returns is not described here: its outcome is
    [OutOfFuel]. *)
Definition navigate_and_extract_within (room : nat) (web : str -> nav)
    (url : str) (max_depth : Z) (d : Driver)
    : outcome (list PageDetails) * Driver :=
  let start := {| driver := d; scraped_pages := []; visited_urls := ∅ |} in
  match recursive_scrape web max_depth room url 0 start with
  | (Returns _, r) => (Returns (scraped_pages r), driver r)
  | (Raises e, r) => (Raises e, driver r)
  | (OutOfFuel, r) => (OutOfFuel, driver r)
  end.

(** ** The report *)

(** ["\n"] *)
Definition newline : str := [10%N].

(** [enumerate(xs, start)] *)
Fixpoint enumerate {A} (xs : list A) (start : Z) : list (Z * A) :=
  match xs with
  | [] => []
  | x :: rest => (start, x) :: enumerate rest (start + 1)
  end.

(** [f.write(text)] on a file opened for writing: the state is the text
    written so far. *)
Definition write (text : str) : M str unit :=
  modify (fun f => f ++ text).

(** [s[:n]] *)
Definition slice_to (n : nat) (s : str) : str := take n s.

(** The body of the loop of [save_scraped_data], over the file operation
    [f.write]. *)
Definition write_block_with {F} (f_write : str -> M F unit)
    (entry : Z * PageDetails) : M F unit :=
  let (index, page) := entry in
  f_write ("Page " ++ lit (pretty index) ++ ":" ++ newline) ;;
  f_write ("Title: " ++ pd_title page ++ newline) ;;
  f_write ("URL: " ++ pd_url page ++ newline) ;;
  f_write ("Content: " ++ slice_to 1000 (pd_page_content page)
             ++ "..." ++ newline ++ newline).

(** The body of the loop on a file whose writes succeed. *)
Definition write_block : Z * PageDetails -> M str unit :=
  write_block_with write.

(** [save_scraped_data(scraped_data)] when the file can be opened and every
    write succeeds: the text the file holds when the [with] block is left
    ([open(..., 'w')] starts from an empty file). *)
Definition save_scraped_data (scraped_data : list PageDetails) : outcome unit * str :=
  for_each (enumerate scraped_data 1) write_block [].

(** *** Writing to a file system that can fail *)

(** The file system under the report file: whether [open(..., 'w')]
    raises, and which [write] (counted from 0) the device refuses, if any. *)
Record Disk : Type := {
  open_error : option exn;
  write_error : option (nat * exn)
}.

(** The file while it is written: its text and the number of writes made. *)
Record File : Type := {
  written : str;
  writes_done : nat
}.

(** The file is opened with [encoding='utf-8']: a surrogate code point
    cannot be encoded. *)
Definition surrogate (c : char) : bool :=
  (N.leb 55296 c && N.leb c 57343)%N.

Definition encodable (text : str) : bool :=
  forallb (fun c => negb (surrogate c)) text.

(** [f.write(text)] on such a file. *)
Definition disk_write (disk : Disk) (text : str) : M File unit :=
  fun f =>
    if encodable text
    then match write_error disk with
         | Some (k, e) =>
             if bool_decide (writes_done f = k) then (Raises e, f)
             else (Returns tt, {| written := written f ++ text;
                                  writes_done := S (writes_done f) |})
         | None =>
             (Returns tt, {| written := written f ++ text;
                             writes_done := S (writes_done f) |})
         end
    else (Raises UnicodeEncodeError, f).

(** [save_scraped_data(scraped_data)] on a file system that can fail; the
    state is what the report file holds, if it exists.  When a write
    raises, the [with] block closes the file with what was written before. *)
Definition save_scraped_data_on (disk : Disk) (scraped_data : list PageDetails)
    : M (option str) unit :=
  fun old =>
    match open_error disk with
    | Some e => (Raises e, old)
    | None =>
        let (o, f) :=
          for_each (enumerate scraped_data 1) (write_block_with (disk_write disk))
            {| written := []; writes_done := 0 |} in
        (o, Some (written f))
    end.

(** [main]'s two steps: crawl from [url], then write the report.  The
    result is the text of the report file. *)
Definition crawl_report (web : str -> nav) (url : str) (max_depth : Z)
    (d : Driver) : outcome str :=
  match fst (navigate_and_extract web url max_depth d) with
  | Returns scraped_data =>
      match save_scraped_data scraped_data with
      | (Returns _, text) => Returns text
      | (Raises e, _) => Raises e
      | (OutOfFuel, _) => OutOfFuel
      end
  | Raises e => Raises e
  | OutOfFuel => OutOfFuel
  end.

(** ** Vocabulary for the statements *)

(** What the expression of the list comprehension of [extract_image_links]
    evaluates to on one element. *)
Definition link_of (img : Img) : attempt (option str) :=
  match src img with
  | Fails e => Fails e
  | Gives s => if truthy s then Gives s else parent_href img
  end.

(** The comprehension over all elements: the first read that raises ends it. *)
Fixpoint links_read (imgs : list Img) : attempt (list (option str)) :=
  match imgs with
  | [] => Gives []
  | img :: rest =>
      match link_of img with
      | Fails e => Fails e
      | Gives l =>
          match links_read rest with
          | Fails e => Fails e
          | Gives ls => Gives (l :: ls)
          end
      end
  end.

(** The follow-locations [extract_image_links] yields on a page. *)
Definition candidates (p : Page) : list str :=
  match img_elements p with
  | Fails _ => []
  | Gives imgs =>
      match links_read imgs with
      | Fails _ => []
      | Gives ls => omap (fun link => if keeps link then link else None) ls
      end
  end.

(** The record [extract_page_details] builds on a page with body text [c]. *)
Definition details (p : Page) (c : str) : PageDetails :=
  {| pd_title := title p; pd_url := current_url p; pd_page_content := c |}.

(** The record a location yields when it is requested, if any: the
    navigation succeeds and the body can be read. *)
Definition record_at (web : str -> nav) (l : str) : option PageDetails :=
  match web l with
  | NavError _ => None
  | Loaded p =>
      match body_text p with
      | Fails _ => None
      | Gives c => Some (details p c)
      end
  end.

(** The three ways a frame of [recursive_scrape] that passed its guard
    changes the state before it looks at links: the navigation fails; the
    page loads but its details cannot be read; the record is appended and
    the location marked visited. *)
Definition refused (r : Run) (url : str) : Run :=
  {| driver := {| page := page (driver r);
                  requests := requests (driver r) ++ [url] |};
     scraped_pages := scraped_pages r;
     visited_urls := visited_urls r |}.

Definition unread (r : Run) (url : str) (p : Page) : Run :=
  {| driver := {| page := p; requests := requests (driver r) ++ [url] |};
     scraped_pages := scraped_pages r;
     visited_urls := visited_urls r |}.

Definition entered (r : Run) (url : str) (p : Page) (c : str) : Run :=
  {| driver := {| page := p; requests := requests (driver r) ++ [url] |};
     scraped_pages := scraped_pages r ++ [details p c];
     visited_urls := {[url]} ∪ visited_urls r |}.

(** [reach web seed n l]: [l] is discovered at depth [n], through [n]
    follow-links of pages that were scraped, starting from [seed]. *)
Inductive reach (web : str -> nav) (seed : str) : nat -> str -> Prop :=
  | reach_seed : reach web seed O seed
  | reach_link n l p c link :
      reach web seed n l ->
      web l = Loaded p ->
      body_text p = Gives c ->
      link ∈ candidates p ->
      reach web seed (S n) link.


(** The loop of a frame at depth [depth]: each link is explored one level
    further down. *)
Definition explore_links (web : str -> nav) (max_depth : Z) (fuel : nat)
    (depth : Z) (links : list str) : M Run unit :=
  for_each links
    (fun link => recursive_scrape web max_depth fuel link (depth + 1)).

(** [ls] lists, in order, the requested locations the records [recs] were
    built from. *)
Definition records_of (web : str -> nav) (ls : list str)
    (recs : list PageDetails) : Prop :=
  record_at web <$> ls = Some <$> recs.

(** The state a run of [navigate_and_extract] starts from. *)
Definition start (d : Driver) : Run :=
  {| driver := d; scraped_pages := []; visited_urls := ∅ |}.

(** The state in which a run of [navigate_and_extract] ends. *)
Definition final (web : str -> nav) (max_depth : Z) (url : str)
    (d : Driver) : Run :=
  snd (recursive_scrape web max_depth (call_budget max_depth) url 0 (start d)).

(** The state in which a run within [room] ends. *)
Definition final_within (room : nat) (web : str -> nav) (max_depth : Z)
    (url : str) (d : Driver) : Run :=
  snd (recursive_scrape web max_depth room url 0 (start d)).

(** [r'] is [r] after some more requests, records and visits. *)
Definition extends (r r' : Run) : Prop :=
  (exists more, requests (driver r') = requests (driver r) ++ more) /\
  (exists more, scraped_pages r' = scraped_pages r ++ more) /\
  visited_urls r ⊆ visited_urls r'.

(** ** Small webs for the examples *)

(** The page of a browser that has not navigated yet. *)
Definition blank : Page :=
  {| title := []; current_url := "data:,"; body_text := Gives [];
     img_elements := Gives [] |}.

Definition fresh_driver : Driver := {| page := blank; requests := [] |}.

(** An image with a [src] attribute and no enclosing anchor. *)
Definition img_src (s : str) : Img :=
  {| src := Gives (Some s); parent_href := Gives None |}.

(** Images with the given sources, written as literals. *)
Definition img_srcs (srcs : list string) : list Img :=
  (fun s : string => img_src s) <$> srcs.

(** A page that reads without failure, with the given image sources. *)
Definition simple_page (t u c : str) (srcs : list string) : Page :=
  {| title := t; current_url := u; body_text := Gives c;
     img_elements := Gives (img_srcs srcs) |}.



(** Two pages that name each other. *)
Definition web_cycle (l : str) : nav :=
  if bool_decide (l = "http://a.test/")
  then Loaded (simple_page "A" "http://a.test/" "text of a" ["http://b.test/"])
  else if bool_decide (l = "http://b.test/")
  then Loaded (simple_page "B" "http://b.test/" "text of b" ["http://a.test/"])
  else NavError TimeoutException.


(** The records of a run that returned. *)
Definition result_of (o : outcome (list PageDetails) * Driver) : list PageDetails :=
  match fst o with
  | Returns recs => recs
  | _ => []
  end.

(** ** Vocabulary for the extractor and the report *)

(** The candidate list as the specification words it: an element whose
    read raises is skipped, and the other elements still contribute. *)
Definition spec_candidates (imgs : list Img) : list str :=
  omap (fun img =>
          match link_of img with
          | Fails _ => None
          | Gives link => if keeps link then link else None
          end) imgs.

(** [s.find(pattern)]: where [pattern] first occurs in [s], if it does. *)
Fixpoint find_in (pattern s : str) : option nat :=
  if startswith pattern s then Some O
  else match s with
       | [] => None
       | _ :: rest => S <$> find_in pattern rest
       end.

(** A fully-qualified reference, in the specification's words: it has a
    scheme, that is, a non-empty part before ["://"]. *)
Definition fully_qualified (s : str) : bool :=
  match find_in "://" s with
  | Some (S _) => true
  | _ => false
  end.

(** An image whose handle has gone stale. *)
Definition stale_img : Img :=
  {| src := Fails StaleElementReferenceException;
     parent_href := Fails StaleElementReferenceException |}.

(** A page with a readable image and a stale one. *)
Definition page_with_stale_img : Page :=
  {| title := "S"; current_url := "http://s.test/"; body_text := Gives (lit "text of s");
     img_elements := Gives [img_src "http://s.test/x.png"; stale_img] |}.

(** A page whose image is named by a relative path that begins with the
    letters [http]. *)
Definition page_with_http_named_file : Page :=
  simple_page "H" "http://h.test/" "text of h" ["httpdocs/y.png"].

(** The page of the specification's example: one absolute reference among
    relative ones. *)
Definition page_with_mixed_references : Page :=
  simple_page "M" "https://example.com/" "text of m"
    ["https://example.com/x"; "/x"; "images/y.png"].

Definition showing (p : Page) : Driver := {| page := p; requests := [] |}.

(** The block [save_scraped_data] writes for the record [page] numbered
    [index]: its four [write] calls, in order. *)
Definition block (index : Z) (page : PageDetails) : str :=
  ("Page " ++ lit (pretty index) ++ ":" ++ newline) ++
  ("Title: " ++ pd_title page ++ newline) ++
  ("URL: " ++ pd_url page ++ newline) ++
  ("Content: " ++ slice_to 1000 (pd_page_content page)
     ++ "..." ++ newline ++ newline).

(** The texts one after the other. *)
Definition flatten (texts : list str) : str :=
  foldr app [] texts.


(** Two states of a run that hold the same records and visited set; the
    browsers may differ. *)
Definition same_records (r1 r2 : Run) : Prop :=
  scraped_pages r1 = scraped_pages r2 /\ visited_urls r1 = visited_urls r2.

(** A browser that has been used before. *)
Definition used_driver : Driver :=
  {| page := page_with_stale_img; requests := [lit "http://s.test/"] |}.


(** A small tree: [a] names [b] and [c], and [b] names [d]. *)
Definition web_tree (l : str) : nav :=
  if bool_decide (l = "http://a.test/")
  then Loaded (simple_page "A" "http://a.test/" "text of a"
                 ["http://b.test/"; "http://c.test/"])
  else if bool_decide (l = "http://b.test/")
  then Loaded (simple_page "B" "http://b.test/" "text of b" ["http://d.test/"])
  else if bool_decide (l = "http://c.test/")
  then Loaded (simple_page "C" "http://c.test/" "text of c" [])
  else if bool_decide (l = "http://d.test/")
  then Loaded (simple_page "D" "http://d.test/" "text of d" [])
  else NavError TimeoutException.

(** ** The rest of the class, and [main] *)

(** What the process of [main] works on: [scraper.driver] ([None] until
    [setup_driver] has run), the number of [driver.quit()] calls made, and
    the contents of the report file, if it exists. *)
Record Process : Type := {
  self_driver : option Driver;
  quit_calls : nat;
  report_file : option str
}.

(** The browser installation: what [webdriver.Chrome(...)] and
    [driver.quit()] meet. *)
Record Chrome : Type := {
  launch : attempt Driver;
  quit : attempt unit
}.

(** [try: body finally: cleanup].  The cleanup runs whether the body
    returned or raised; an exception of the cleanup replaces the outcome of
    the body. *)
Definition try_finally {S A} (body : M S A) (cleanup : M S unit) : M S A :=
  fun s =>
    match body s with
    | (OutOfFuel, s') => (OutOfFuel, s')
    | (o, s') =>
        match cleanup s' with
        | (Returns _, s'') => (o, s'')
        | (Raises e, s'') => (Raises e, s'')
        | (OutOfFuel, s'') => (OutOfFuel, s'')
        end
    end.

(** [WebScraper(chromedriver_path)]: of the state modelled here,
    [__init__] sets [self.driver = None]. *)
Definition new_scraper : M Process unit :=
  modify (fun s => {| self_driver := None; quit_calls := quit_calls s;
                      report_file := report_file s |}).

(** [scraper.setup_driver()] *)
Definition setup_driver (chrome : Chrome) : M Process Driver :=
  fun s =>
    match launch chrome with
    | Fails e => (Raises e, s)
    | Gives d =>
        (Returns d, {| self_driver := Some d; quit_calls := quit_calls s;
                       report_file := report_file s |})
    end.

(** [scraper.navigate_and_extract(url, max_depth)].  Without a driver,
    [self.driver.get] fails in the first frame, inside its [try], and the
    empty list is returned. *)
Definition scraper_navigate (web : str -> nav) (url : str) (max_depth : Z)
    : M Process (list PageDetails) :=
  fun s =>
    match self_driver s with
    | None => (Returns [], s)
    | Some d =>
        let (o, d') := navigate_and_extract web url max_depth d in
        (o, {| self_driver := Some d'; quit_calls := quit_calls s;
               report_file := report_file s |})
    end.



(** [scraper.save_scraped_data(scraped_data)], on the default file. *)
Definition scraper_save (disk : Disk) (scraped_data : list PageDetails)
    : M Process unit :=
  fun s =>
    let (o, file) := save_scraped_data_on disk scraped_data (report_file s) in
    (o, {| self_driver := self_driver s; quit_calls := quit_calls s;
           report_file := file |}).

(** [scraper.close()] *)
Definition close (chrome : Chrome) : M Process unit :=
  fun s =>
    match self_driver s with
    | None => (Returns tt, s)
    | Some _ =>
        (of_attempt (quit chrome),
         {| self_driver := self_driver s; quit_calls := S (quit_calls s);
            report_file := report_file s |})
    end.

Definition page_url : str :=
  "https://wilsoncombat.com/long-guns/ar-10-calibers/358-winchester.html".

(** [main()]; the messages it prints are left out. *)
Definition main (web : str -> nav) (chrome : Chrome) (disk : Disk)
    : M Process unit :=
  try_finally
    (try_except
       (new_scraper ;;
        setup_driver chrome ;;
        scraped_data <- scraper_navigate web page_url 2 ;;
        scraper_save disk scraped_data)
       (fun e => (* print(...) *) ret tt))
    (close chrome).

(** A web with a detour: [s] names [a] and [x], and [x] is also reached
    through [a] and [b]; [x] names [y]. *)
Definition web_detour (l : str) : nav :=
  if bool_decide (l = "http://s.test/")
  then Loaded (simple_page "S" "http://s.test/" "text of s"
                 ["http://a.test/"; "http://x.test/"])
  else if bool_decide (l = "http://a.test/")
  then Loaded (simple_page "A" "http://a.test/" "text of a" ["http://b.test/"])
  else if bool_decide (l = "http://b.test/")
  then Loaded (simple_page "B" "http://b.test/" "text of b" ["http://x.test/"])
  else if bool_decide (l = "http://x.test/")
  then Loaded (simple_page "X" "http://x.test/" "text of x" ["http://y.test/"])
  else if bool_decide (l = "http://y.test/")
  then Loaded (simple_page "Y" "http://y.test/" "text of y" [])
  else NavError TimeoutException.

(** The web of [main]'s start page, reduced to that page and one picture. *)
Definition web_shop (l : str) : nav :=
  if bool_decide (l = page_url)
  then Loaded (simple_page "358 Winchester" page_url "text of the page"
                 ["https://wilsoncombat.com/media/rifle.jpg"])
  else if bool_decide (l = "https://wilsoncombat.com/media/rifle.jpg")
  then Loaded (simple_page "rifle.jpg" "https://wilsoncombat.com/media/rifle.jpg"
                 [] [])
  else NavError TimeoutException.

(** A fresh process: no scraper yet, no report file. *)
Definition fresh_process : Process :=
  {| self_driver := None; quit_calls := 0; report_file := None |}.


Definition chrome_missing : Chrome :=
  {| launch := Fails WebDriverException; quit := Gives tt |}.

(** A file system that works, and one on which the report file cannot be
    opened. *)
Definition disk_ok : Disk := {| open_error := None; write_error := None |}.


(** An image with a [src] attribute whose parent cannot be read, and an
    image without [src] inside an anchor. *)
Definition img_orphan (s : str) : Img :=
  {| src := Gives (Some s); parent_href := Fails NoSuchElementException |}.

Definition img_in_anchor (href : str) : Img :=
  {| src := Gives None; parent_href := Gives (Some href) |}.

(** A page that reads without failure, with the given image elements. *)
Definition page_of_imgs (imgs : list Img) : Page :=
  {| title := "I"; current_url := "http://i.test/"; body_text := Gives (lit "text of i");
     img_elements := Gives imgs |}.

(** * Properties *)

(** ** The extractor reads the current page and nothing else *)

Lemma img_link_reads img d : img_link img d = (of_attempt (link_of img), d).
Proof.
  unfold img_link, link_of, bind.
  destruct (src img) as [e|s]; simpl; [done|].
  destruct (truthy s); done.
Qed.

Lemma comprehension_img_link imgs d :
  comprehension imgs img_link d = (of_attempt (links_read imgs), d).
Proof.
  induction imgs as [|img rest IH]; simpl; [done|].
  unfold bind at 1. rewrite img_link_reads.
  destruct (link_of img) as [e|l]; simpl; [done|].
  unfold bind at 1. rewrite IH.
  destruct (links_read rest); done.
Qed.

Lemma extract_image_links_candidates d :
  extract_image_links d = (Returns (candidates (page d)), d).
Proof.
  unfold extract_image_links, try_except, candidates, read_page.
  unfold bind at 1.
  destruct (img_elements (page d)) as [e|imgs]; simpl; [done|].
  unfold bind. rewrite comprehension_img_link.
  destruct (links_read imgs); done.
Qed.

Lemma extract_page_details_reads d :
  extract_page_details d =
  (match body_text (page d) with
   | Fails e => Raises e
   | Gives c => Returns (details (page d) c)
   end, d).
Proof.
  unfold extract_page_details, bind, gets, read_page, ret, details.
  destruct (body_text (page d)); done.
Qed.

(** ** One frame of the recursion *)

Lemma guard_false (max_depth depth : Z) (url : str) (visited : gset str) :
  (depth >? max_depth) || bool_decide (url ∈ visited) = false <->
  depth <= max_depth /\ url ∉ visited.
Proof.
  rewrite orb_false_iff, bool_decide_eq_false.
  rewrite Z.gtb_ltb, Z.ltb_ge. tauto.
Qed.

Section Frames.

Variable web : str -> nav.
Variable max_depth : Z.

Lemma frame_eq fuel url depth r :
  recursive_scrape web max_depth (S fuel) url depth r =
  if (depth >? max_depth) || bool_decide (url ∈ visited_urls r)
  then (Returns tt, r)
  else match web url with
       | NavError e => (Returns tt, refused r url)
       | Loaded p =>
           match body_text p with
           | Fails e => (Returns tt, unread r url p)
           | Gives c =>
               try_except (explore_links web max_depth fuel depth (candidates p))
                 (fun _ => ret tt) (entered r url p c)
           end
       end.
Proof.
  simpl. destruct (_ || _); [done|].
  unfold try_except at 1. unfold bind at 1.
  unfold on_driver at 1, driver_get.
  destruct (web url) as [e|p]; [done|].
  unfold bind at 1. unfold on_driver at 1.
  rewrite extract_page_details_reads. simpl.
  destruct (body_text p) as [e|c]; [done|].
  unfold bind at 1, append_page, modify.
  unfold bind at 1, add_visited, modify.
  unfold bind at 1. unfold on_driver at 1.
  rewrite extract_image_links_candidates. simpl.
  reflexivity.
Qed.

Lemma explore_links_cons fuel depth link links r :
  explore_links web max_depth fuel depth (link :: links) r =
  match recursive_scrape web max_depth fuel link (depth + 1) r with
  | (Returns _, r') => explore_links web max_depth fuel depth links r'
  | (Raises e, r') => (Raises e, r')
  | (OutOfFuel, r') => (OutOfFuel, r')
  end.
Proof. reflexivity. Qed.

Lemma try_except_state {A} (m : M Run A) (a : A) r :
  snd (try_except m (fun _ => ret a) r) = snd (m r).
Proof. unfold try_except. destruct (m r) as [[x|e|] r']; done. Qed.

(** A Hoare-style rule: [I] is an invariant of the run as soon as the
    three state changes of a frame preserve it; [Q] is what is known of
    the arguments of every call. *)
Lemma scrape_preserves (I : Run -> Prop) (Q : str -> Z -> Prop) :
  (forall r url depth e,
      I r -> Q url depth -> depth <= max_depth -> url ∉ visited_urls r ->
      web url = NavError e -> I (refused r url)) ->
  (forall r url depth p e,
      I r -> Q url depth -> depth <= max_depth -> url ∉ visited_urls r ->
      web url = Loaded p -> body_text p = Fails e -> I (unread r url p)) ->
  (forall r url depth p c,
      I r -> Q url depth -> depth <= max_depth -> url ∉ visited_urls r ->
      web url = Loaded p -> body_text p = Gives c -> I (entered r url p c)) ->
  (forall url depth p c link,
      Q url depth -> depth <= max_depth ->
      web url = Loaded p -> body_text p = Gives c ->
      link ∈ candidates p -> Q link (depth + 1)) ->
  forall fuel url depth r,
    I r -> Q url depth ->
    I (snd (recursive_scrape web max_depth fuel url depth r)).
Proof.
  intros Hrefused Hunread Hentered Hlinks.
  induction fuel as [|fuel IH]; intros url depth r HI HQ; [done|].
  rewrite frame_eq.
  destruct (_ || _) eqn:Hguard; [done|].
  apply guard_false in Hguard as [Hdepth Hfresh].
  destruct (web url) as [e|p] eqn:Hweb; [by eapply Hrefused|].
  destruct (body_text p) as [e|c] eqn:Hbody; [by eapply Hunread|].
  rewrite try_except_state.
  assert (HI' : I (entered r url p c)) by by eapply Hentered.
  assert (HQ' : forall link, link ∈ candidates p -> Q link (depth + 1))
    by (intros; by eapply Hlinks).
  revert HI' HQ'. generalize (entered r url p c) as r'.
  induction (candidates p) as [|link links IHl]; intros r' HI' HQ'; [done|].
  rewrite explore_links_cons.
  specialize (IH link (depth + 1) r' HI' (HQ' link ltac:(left))).
  destruct (recursive_scrape _ _ _ _ _ _) as [[[]|e|] r'']; simpl in *; try done.
  apply IHl; [done|]. intros l Hl. apply HQ'. by right.
Qed.

End Frames.

(** ** Outcomes: nothing is raised, and the call budget suffices *)

Section Outcomes.

Variable web : str -> nav.
Variable max_depth : Z.


(** The loop of a frame returns when each of its calls does. *)
Lemma explore_links_returns fuel depth links r :
  (forall link r', fst (recursive_scrape web max_depth fuel link (depth + 1) r')
                   = Returns tt) ->
  fst (explore_links web max_depth fuel depth links r) = Returns tt.
Proof.
  intros Hcall. revert r.
  induction links as [|link links IH]; intros r; [done|].
  rewrite explore_links_cons.
  specialize (Hcall link r).
  destruct (recursive_scrape _ _ _ _ _ _) as [[[]|e|] r']; simpl in *;
    [apply IH | done | done].
Qed.

(** A call at depth [depth] nests at most [max_depth + 1 - depth] calls
    below itself; with a larger budget it returns. *)
Lemma scrape_returns fuel url depth r :
  (Z.to_nat (max_depth + 1 - depth) < fuel)%nat ->
  fst (recursive_scrape web max_depth fuel url depth r) = Returns tt.
Proof.
  revert url depth r.
  induction fuel as [|fuel IH]; intros url depth r Hfuel; [lia|].
  rewrite frame_eq.
  destruct (_ || _) eqn:Hguard; [done|].
  apply guard_false in Hguard as [Hdepth _].
  destruct (web url) as [e'|p]; [done|].
  destruct (body_text p) as [e'|c]; [done|].
  assert (Hloop : fst (explore_links web max_depth fuel depth (candidates p)
                         (entered r url p c)) = Returns tt).
  { apply explore_links_returns. intros. apply IH. lia. }
  unfold try_except. revert Hloop.
  destruct (explore_links _ _ _ _ _ _) as [[[]|e'|] r']; done.
Qed.

(** Beyond the depth bound a call does nothing at all. *)
Lemma scrape_too_deep fuel url depth r :
  max_depth < depth ->
  recursive_scrape web max_depth (S fuel) url depth r = (Returns tt, r).
Proof.
  intros Hdeep. rewrite frame_eq.
  replace (depth >? max_depth) with true by (symmetry; lia). done.
Qed.

(** So does a call on a location already visited. *)
Lemma scrape_visited fuel url depth r :
  url ∈ visited_urls r ->
  recursive_scrape web max_depth (S fuel) url depth r = (Returns tt, r).
Proof.
  intros Hseen. rewrite frame_eq.
  rewrite (bool_decide_eq_true_2 _ Hseen), orb_true_r. done.
Qed.

End Outcomes.

(** ** What the records come from *)

Lemma navigate_and_extract_eq web url max_depth d :
  navigate_and_extract web url max_depth d =
  (Returns (scraped_pages (final web max_depth url d)),
   driver (final web max_depth url d)).
Proof.
  unfold navigate_and_extract, final. fold (start d).
  pose proof (scrape_returns web max_depth (call_budget max_depth) url 0 (start d))
    as Hret.
  destruct (recursive_scrape _ _ _ _ _ _) as [o r]; cbn [fst snd] in *.
  rewrite Hret; [done|]. unfold call_budget. lia.
Qed.



Section Provenance.

Variable web : str -> nav.
Variable max_depth : Z.


(** The records are those of a duplicate-free list of locations, the
    visited ones, each discovered from [seed] within the depth bound. *)
Lemma origins seed fuel d :
  exists ls : list str,
    let r := snd (recursive_scrape web max_depth fuel seed 0 (start d)) in
    NoDup ls /\
    (forall l, l ∈ visited_urls r <-> l ∈ ls) /\
    records_of web ls (scraped_pages r) /\
    (forall l, l ∈ ls ->
       exists n, Z.of_nat n <= max_depth /\ reach web seed n l).
Proof.
  pose (I := fun r : Run => exists ls : list str,
    NoDup ls /\
    (forall l, l ∈ visited_urls r <-> l ∈ ls) /\
    records_of web ls (scraped_pages r) /\
    (forall l, l ∈ ls ->
       exists n, Z.of_nat n <= max_depth /\ reach web seed n l)).
  pose (Q := fun (url : str) (depth : Z) =>
    exists n, Z.of_nat n = depth /\ reach web seed n url).
  change (I (snd (recursive_scrape web max_depth fuel seed 0 (start d)))).
  apply (scrape_preserves web max_depth I Q); try done.
  - intros r url depth p c (ls & Hnodup & Hvis & Hrecs & Hreach)
      (n & Hn & Hurl) Hdepth Hnew Hweb Hbody.
    exists (ls ++ [url]). split; [|split; [|split]]; simpl.
    + apply NoDup_app. split; [done|]. split; [|apply NoDup_singleton].
      intros l Hl Hin. apply list_elem_of_singleton in Hin as ->.
      by apply Hnew, Hvis.
    + intros l. rewrite elem_of_union, elem_of_singleton, elem_of_app,
        list_elem_of_singleton, Hvis. tauto.
    + unfold records_of in *. rewrite !fmap_app, Hrecs. simpl.
      unfold record_at. by rewrite Hweb, Hbody.
    + intros l Hl. apply elem_of_app in Hl as [Hl|Hl]; [by apply Hreach|].
      apply list_elem_of_singleton in Hl as ->.
      exists n. split; [lia|done].
  - intros url depth p c link (n & Hn & Hurl) Hdepth Hweb Hbody Hlink.
    exists (S n). split; [lia|]. by eapply reach_link.
  - exists []. split; [apply NoDup_nil_2|]. split; [|split]; simpl.
    + intros l. rewrite elem_of_nil. split; [|done]. apply not_elem_of_empty.
    + done.
    + intros l Hl. by apply elem_of_nil in Hl.
  - exists O. split; [done|]. apply reach_seed.
Qed.

End Provenance.

(** ** Growth: requests and records are only ever appended *)

Section Growth.

Variable web : str -> nav.
Variable max_depth : Z.

Lemma extends_refl r : extends r r.
Proof.
  split; [|split]; [exists []; by rewrite app_nil_r ..|done].
Qed.

Lemma extends_trans r1 r2 r3 : extends r1 r2 -> extends r2 r3 -> extends r1 r3.
Proof.
  intros ([m1 H1] & [n1 H1'] & Hv1) ([m2 H2] & [n2 H2'] & Hv2).
  split; [|split].
  - exists (m1 ++ m2). by rewrite H2, H1, app_assoc.
  - exists (n1 ++ n2). by rewrite H2', H1', app_assoc.
  - by etrans.
Qed.

Lemma scrape_extends fuel url depth r :
  extends r (snd (recursive_scrape web max_depth fuel url depth r)).
Proof.
  apply (scrape_preserves web max_depth (extends r) (fun _ _ => True));
    try done; [..|apply extends_refl].
  - intros r' ? ? ? Hr' _ _ _ _. apply (extends_trans _ _ _ Hr').
    split; [|split]; simpl; [by eexists|exists []; by rewrite app_nil_r|done].
  - intros r' ? ? ? ? Hr' _ _ _ _ _. apply (extends_trans _ _ _ Hr').
    split; [|split]; simpl; [by eexists|exists []; by rewrite app_nil_r|done].
  - intros r' ? ? ? ? Hr' _ _ _ _ _. apply (extends_trans _ _ _ Hr').
    split; [|split]; simpl; [by eexists|by eexists|]. apply union_subseteq_r.
Qed.

Lemma explore_links_extends fuel depth links r :
  extends r (snd (explore_links web max_depth fuel depth links r)).
Proof.
  revert r. induction links as [|link links IH]; intros r; [apply extends_refl|].
  rewrite explore_links_cons.
  pose proof (scrape_extends fuel link (depth + 1) r) as Hcall.
  destruct (recursive_scrape _ _ _ _ _ _) as [[[]|e|] r']; simpl in *; try done.
  by eapply extends_trans.
Qed.

End Growth.

(** ** The frames of a run, case by case *)

Section Cases.

Variable web : str -> nav.
Variable max_depth : Z.

Lemma frame_enter fuel url depth r p c :
  depth <= max_depth -> url ∉ visited_urls r ->
  web url = Loaded p -> body_text p = Gives c ->
  recursive_scrape web max_depth (S fuel) url depth r =
  try_except (explore_links web max_depth fuel depth (candidates p))
    (fun _ => ret tt) (entered r url p c).
Proof.
  intros Hdepth Hnew Hweb Hbody. rewrite frame_eq.
  rewrite (proj2 (guard_false max_depth depth url (visited_urls r)))
    by done.
  by rewrite Hweb, Hbody.
Qed.



(** When every call of the loop returns, so does the frame around it, in
    the state the loop reached. *)
Lemma try_except_returns (m : M Run unit) r r' :
  m r = (Returns tt, r') ->
  try_except m (fun _ => ret tt) r = (Returns tt, r').
Proof. unfold try_except. by intros ->. Qed.

End Cases.


(** ** Runs within the recursion limit *)

Lemma navigate_and_extract_within_eq room web url max_depth d :
  (Z.to_nat (max_depth + 1) < room)%nat ->
  navigate_and_extract_within room web url max_depth d =
  (Returns (scraped_pages (final_within room web max_depth url d)),
   driver (final_within room web max_depth url d)).
Proof.
  intros Hroom. unfold navigate_and_extract_within, final_within. fold (start d).
  pose proof (scrape_returns web max_depth room url 0 (start d)) as Hret.
  destruct (recursive_scrape _ _ _ _ _ _) as [o r]; cbn [fst snd] in *.
  rewrite Hret; [done|]. lia.
Qed.

Lemma explore_links_same_calls web max_depth fuel1 fuel2 depth links r :
  (forall link r',
      recursive_scrape web max_depth fuel1 link (depth + 1) r' =
      recursive_scrape web max_depth fuel2 link (depth + 1) r') ->
  explore_links web max_depth fuel1 depth links r =
  explore_links web max_depth fuel2 depth links r.
Proof.
  intros Hcalls. revert r.
  induction links as [|link links IH]; intros r; [done|].
  rewrite !explore_links_cons, Hcalls.
  by destruct (recursive_scrape _ _ _ _ _ _) as [[[]|e|] r'].
Qed.

(** Room beyond what the depth bound can use changes nothing. *)
Lemma scrape_room_irrelevant web max_depth fuel1 fuel2 url depth r :
  (Z.to_nat (max_depth + 1 - depth) < fuel1)%nat ->
  (Z.to_nat (max_depth + 1 - depth) < fuel2)%nat ->
  recursive_scrape web max_depth fuel1 url depth r =
  recursive_scrape web max_depth fuel2 url depth r.
Proof.
  revert fuel2 url depth r.
  induction fuel1 as [|fuel1 IH]; intros [|fuel2] url depth r H1 H2; try lia.
  rewrite !frame_eq.
  destruct (_ || _) eqn:Hguard; [done|].
  apply guard_false in Hguard as [Hdepth _].
  destruct (web url) as [e|p]; [done|].
  destruct (body_text p) as [e|c]; [done|].
  unfold try_except.
  rewrite (explore_links_same_calls web max_depth fuel1 fuel2); [done|].
  intros link r'. apply IH; lia.
Qed.

Lemma navigate_and_extract_within_enough room web url max_depth d :
  (Z.to_nat (max_depth + 1) < room)%nat ->
  navigate_and_extract_within room web url max_depth d =
  navigate_and_extract web url max_depth d.
Proof.
  intros Hroom. unfold navigate_and_extract_within, navigate_and_extract.
  rewrite (scrape_room_irrelevant web max_depth room (call_budget max_depth));
    [done|lia|unfold call_budget; lia].
Qed.

(** ** Frames that fail *)

Section Failing.

Variable web : str -> nav.
Variable max_depth : Z.




End Failing.

(** ** The claims *)










(** ** The extractor *)

Lemma links_read_spec_candidates imgs ls :
  links_read imgs = Gives ls ->
  omap (fun link => if keeps link then link else None) ls = spec_candidates imgs.
Proof.
  revert ls. induction imgs as [|img imgs IH]; intros ls; simpl.
  - by intros [= <-].
  - unfold spec_candidates. simpl.
    destruct (link_of img) as [e|link]; [done|].
    destruct (links_read imgs) as [e|ls'] eqn:Hrest; [done|].
    intros [= <-]. simpl. specialize (IH ls' eq_refl).
    unfold spec_candidates in IH.
    destruct (if keeps link then link else None); [f_equal|]; exact IH.
Qed.

Lemma links_read_all_readable imgs :
  Forall (fun img => exists link, link_of img = Gives link) imgs ->
  exists ls, links_read imgs = Gives ls.
Proof.
  induction 1 as [|img imgs [link Hlink] _ [ls IH]]; simpl; [by eexists|].
  rewrite Hlink, IH. by eexists.
Qed.

Lemma links_read_some_failing imgs :
  Exists (fun img => exists e, link_of img = Fails e) imgs ->
  exists e, links_read imgs = Fails e.
Proof.
  induction 1 as [img imgs [e He]|img imgs _ [e IH]]; simpl.
  - rewrite He. by eexists.
  - destruct (link_of img); [by eexists|]. rewrite IH. by eexists.
Qed.

Lemma extract_image_links_cases d :
  extract_image_links d =
  (Returns match img_elements (page d) with
           | Fails _ => []
           | Gives imgs =>
               match links_read imgs with
               | Fails _ => []
               | Gives ls => omap (fun link => if keeps link then link else None) ls
               end
           end, d).
Proof. apply extract_image_links_candidates. Qed.

(** C4, amended.  [extract_image_links] never raises and leaves the
    browser as it is.  When every element is read without an exception, the
    elements with a missing or unsuitable attribute contribute nothing and
    the others are kept; but as soon as the read of one element raises, or
    the elements cannot be listed, the whole list is given up and the empty
    list is returned.  A failure to read the page details is what
    propagates to the caller. *)
Theorem link_extraction_all_or_nothing (d : Driver) :
  (exists links, extract_image_links d = (Returns links, d)) /\
  (forall imgs,
      img_elements (page d) = Gives imgs ->
      Forall (fun img => exists link, link_of img = Gives link) imgs ->
      extract_image_links d = (Returns (spec_candidates imgs), d)) /\
  (forall imgs,
      img_elements (page d) = Gives imgs ->
      Exists (fun img => exists e, link_of img = Fails e) imgs ->
      extract_image_links d = (Returns [], d)) /\
  (forall e,
      img_elements (page d) = Fails e ->
      extract_image_links d = (Returns [], d)) /\
  (forall e,
      body_text (page d) = Fails e ->
      extract_page_details d = (Raises e, d)).
Proof.
  rewrite extract_image_links_cases.
  split; [by eexists|]. split; [|split; [|split]].
  - intros imgs -> [ls Hls]%links_read_all_readable.
    rewrite Hls. by rewrite (links_read_spec_candidates imgs ls).
  - intros imgs -> [e He]%links_read_some_failing. by rewrite He.
  - by intros e ->.
  - intros e He. by rewrite extract_page_details_reads, He.
Qed.

(** C4 on a page read without failure and on a page with a stale image. *)
Lemma link_extraction_all_or_nothing_witness :
  extract_image_links (showing page_with_mixed_references)
    = (Returns [lit "https://example.com/x"], showing page_with_mixed_references) /\
  extract_image_links (showing page_with_stale_img)
    = (Returns [], showing page_with_stale_img).
Proof.
  split.
  - destruct (link_extraction_all_or_nothing (showing page_with_mixed_references))
      as (_ & Hreadable & _).
    apply (Hreadable _ eq_refl).
    repeat (constructor; [by eexists|]). constructor.
  - destruct (link_extraction_all_or_nothing (showing page_with_stale_img))
      as (_ & _ & Hfailing & _).
    apply (Hfailing _ eq_refl).
    right. left. by eexists.
Defined.

(** C4 as stated fails: one stale element makes the candidates of the
    readable elements disappear as well. *)
Lemma stale_element_drops_all_candidates :
  spec_candidates [img_src "http://s.test/x.png"; stale_img]
    = [lit "http://s.test/x.png"] /\
  fst (extract_image_links (showing page_with_stale_img))
    <> Returns (spec_candidates [img_src "http://s.test/x.png"; stale_img]).
Proof. split; [reflexivity|]. vm_compute. discriminate. Qed.

(** C7, amended.  Every candidate begins with the letters [http]; when
    the elements are read without an exception, a reference is a candidate
    exactly when some element yields it and it begins with [http].  So
    [/x] and [images/y.png] are discarded and every [http://] or
    [https://] reference is kept, but nothing checks that a scheme
    follows. *)
Theorem candidates_begin_with_http (d : Driver) :
  (exists links,
      extract_image_links d = (Returns links, d) /\
      Forall (fun l => startswith "http" l = true) links /\
      (forall imgs ls l,
          img_elements (page d) = Gives imgs -> links_read imgs = Gives ls ->
          (l ∈ links <-> Some l ∈ ls /\ startswith "http" l = true))) /\
  extract_image_links (showing page_with_mixed_references)
    = (Returns [lit "https://example.com/x"], showing page_with_mixed_references).
Proof.
  split; [|reflexivity].
  eexists. split; [apply extract_image_links_cases|]. split.
  - apply Forall_forall. intros l.
    destruct (img_elements (page d)) as [e|imgs]; [by intros ?%elem_of_nil|].
    destruct (links_read imgs) as [e|ls]; [by intros ?%elem_of_nil|].
    rewrite list_elem_of_omap. intros ([s|] & _ & Hkept); [|done].
    unfold keeps in Hkept.
    destruct (truthy (Some s)); [|done]. simpl in Hkept.
    destruct (startswith "http" s) eqn:Hhttp; [|done]. by injection Hkept as ->.
  - intros imgs ls l -> ->. rewrite list_elem_of_omap. split.
    + intros ([s|] & Hin & Hkept); [|done].
      unfold keeps in Hkept.
      destruct (truthy (Some s)); [|done]. simpl in Hkept.
      destruct (startswith "http" s) eqn:Hhttp; [|done].
      by injection Hkept as ->.
    + intros [Hin Hhttp]. exists (Some l). split; [done|].
      unfold keeps. rewrite Hhttp. by destruct l.
Qed.

(** C7 on the page with one absolute reference among relative ones. *)
Lemma candidates_begin_with_http_witness :
  (lit "https://example.com/x"
     ∈ [lit "https://example.com/x"] <->
   Some (lit "https://example.com/x")
     ∈ [Some (lit "https://example.com/x"); Some (lit "/x"); Some (lit "images/y.png")] /\
   startswith "http" "https://example.com/x" = true).
Proof.
  destruct (candidates_begin_with_http (showing page_with_mixed_references))
    as [(links & Hlinks & _ & Hiff) Hexample].
  rewrite Hexample in Hlinks. injection Hlinks as <-.
  apply (Hiff (img_srcs ["https://example.com/x"; "/x"; "images/y.png"]));
    reflexivity.
Defined.

(** C7 as stated fails: a relative reference that begins with the letters
    [http] has no scheme and is a candidate all the same. *)
Lemma http_named_file_is_kept :
  extract_image_links (showing page_with_http_named_file)
    = (Returns [lit "httpdocs/y.png"], showing page_with_http_named_file) /\
  fully_qualified "httpdocs/y.png" = false.
Proof. split; reflexivity. Qed.

(** ** The report *)

Lemma string_app_assoc (s1 s2 s3 : str) :
  (s1 ++ s2) ++ s3 = s1 ++ (s2 ++ s3).
Proof. by rewrite app_assoc. Qed.

Lemma string_app_nil_r (s : str) : s ++ [] = s.
Proof. apply app_nil_r. Qed.

Lemma flatten_cons (x : str) (texts : list str) :
  flatten (x :: texts) = x ++ flatten texts.
Proof. reflexivity. Qed.

Lemma write_block_appends index page f :
  write_block (index, page) f = (Returns tt, f ++ block index page).
Proof.
  unfold write_block, write_block_with, block, write, bind, modify.
  by rewrite !string_app_assoc.
Qed.

Lemma write_loop data start f :
  for_each (enumerate data start) write_block f =
  (Returns tt,
   f ++ flatten (imap (fun i page => block (Z.of_nat i + start) page) data)).
Proof.
  revert start f. induction data as [|page data IH]; intros start f.
  - simpl. by rewrite string_app_nil_r.
  - change (for_each (enumerate (page :: data) start) write_block f)
      with (bind (write_block (start, page))
              (fun _ => for_each (enumerate data (start + 1)) write_block) f).
    unfold bind. rewrite write_block_appends, IH.
    rewrite imap_cons, flatten_cons, string_app_assoc.
    f_equal. f_equal. f_equal. f_equal.
    apply imap_ext. intros i x _. unfold compose. f_equal. lia.
Qed.


(** The report of the run over the two pages that name each other. *)
Example report_of_cycle :
  crawl_report web_cycle "http://a.test/" 2 fresh_driver =
  Returns (lit "Page 1:
Title: A
URL: http://a.test/
Content: text of a...

Page 2:
Title: B
URL: http://b.test/
Content: text of b...

").
Proof. vm_compute. reflexivity. Qed.



(** ** Determinism *)

Section Determinism.

Variables web1 web2 : str -> nav.
Variable max_depth : Z.
Hypothesis same_web : forall l, web1 l = web2 l.

Lemma explore_links_deterministic fuel depth :
  (forall url r1 r2, same_records r1 r2 ->
     fst (recursive_scrape web1 max_depth fuel url (depth + 1) r1) =
     fst (recursive_scrape web2 max_depth fuel url (depth + 1) r2) /\
     same_records (snd (recursive_scrape web1 max_depth fuel url (depth + 1) r1))
       (snd (recursive_scrape web2 max_depth fuel url (depth + 1) r2))) ->
  forall links r1 r2, same_records r1 r2 ->
    fst (explore_links web1 max_depth fuel depth links r1) =
    fst (explore_links web2 max_depth fuel depth links r2) /\
    same_records (snd (explore_links web1 max_depth fuel depth links r1))
      (snd (explore_links web2 max_depth fuel depth links r2)).
Proof.
  intros Hcall links.
  induction links as [|link links IH]; intros r1 r2 Hsame; [done|].
  rewrite !explore_links_cons.
  destruct (Hcall link r1 r2 Hsame) as [Hout Hsame'].
  destruct (recursive_scrape web1 _ _ _ _ _) as [o1 r1'].
  destruct (recursive_scrape web2 _ _ _ _ _) as [o2 r2'].
  simpl in Hout, Hsame'. subst o2.
  destruct o1 as [[]|e|]; [by apply IH|done|done].
Qed.

Lemma scrape_deterministic fuel url depth r1 r2 :
  same_records r1 r2 ->
  fst (recursive_scrape web1 max_depth fuel url depth r1) =
  fst (recursive_scrape web2 max_depth fuel url depth r2) /\
  same_records (snd (recursive_scrape web1 max_depth fuel url depth r1))
    (snd (recursive_scrape web2 max_depth fuel url depth r2)).
Proof.
  revert url depth r1 r2.
  induction fuel as [|fuel IH]; intros url depth r1 r2 Hsame; [done|].
  rewrite !frame_eq. destruct Hsame as [Hrecs Hvis].
  rewrite <- Hvis, <- same_web.
  destruct (_ || _); [done|].
  destruct (web1 url) as [e|p]; [done|].
  destruct (body_text p) as [e|c]; [done|].
  destruct (explore_links_deterministic fuel depth (fun url => IH url (depth + 1))
              (candidates p) (entered r1 url p c) (entered r2 url p c))
    as [Hout Hsame'].
  { split; simpl; by f_equal. }
  unfold try_except.
  destruct (explore_links web1 _ _ _ _ _) as [o1 r1'].
  destruct (explore_links web2 _ _ _ _ _) as [o2 r2'].
  simpl in Hout, Hsame'. subst o2.
  by destruct o1 as [[]|e|].
Qed.

End Determinism.

(** C9.  Two runs from the same seed with the same depth bound, against
    webs that show the same at every location, write the same report, to
    the last character, whatever the browsers showed when the runs began;
    and a report is written. *)
Theorem report_deterministic (web1 web2 : str -> nav) (seed : str)
    (max_depth : Z) (d1 d2 : Driver) :
  (forall l, web1 l = web2 l) ->
  crawl_report web1 seed max_depth d1 = crawl_report web2 seed max_depth d2 /\
  fst (navigate_and_extract web1 seed max_depth d1)
    = fst (navigate_and_extract web2 seed max_depth d2) /\
  exists text, crawl_report web1 seed max_depth d1 = Returns text.
Proof.
  intros Hweb.
  assert (Hrecs : fst (navigate_and_extract web1 seed max_depth d1)
                  = fst (navigate_and_extract web2 seed max_depth d2)).
  { rewrite !navigate_and_extract_eq. cbn [fst]. f_equal. unfold final.
    by destruct (scrape_deterministic web1 web2 max_depth Hweb
                   (call_budget max_depth) seed 0 (start d1) (start d2))
      as [_ [-> _]]. }
  split; [|split; [done|]].
  - unfold crawl_report. by rewrite Hrecs.
  - unfold crawl_report. rewrite navigate_and_extract_eq. cbn [fst].
    unfold save_scraped_data. rewrite write_loop. by eexists.
Qed.

(** C9 on two runs over the same web, the second with a browser that was
    used before. *)
Lemma report_deterministic_witness :
  crawl_report web_cycle "http://a.test/" 2 fresh_driver
    = crawl_report web_cycle "http://a.test/" 2 used_driver.
Proof.
  apply (report_deterministic web_cycle web_cycle "http://a.test/" 2
           fresh_driver used_driver).
  reflexivity.
Defined.



(** ** The depth bound *)

Section Depth.

Variable web : str -> nav.
Variable max_depth : Z.

(** A loop whose calls are all beyond the bound changes nothing. *)
Lemma explore_too_deep fuel depth links r :
  max_depth < depth + 1 ->
  explore_links web max_depth (S fuel) depth links r = (Returns tt, r).
Proof.
  intros Hdeep. induction links as [|link links IH]; [done|].
  by rewrite explore_links_cons, scrape_too_deep.
Qed.

(** The loop over the links of the last level within the bound: each link
    that is new and yields a record adds that record, and nothing else. *)
Lemma explore_last_level fuel depth links recs r :
  depth + 1 = max_depth ->
  NoDup links ->
  (forall l, l ∈ links -> l ∉ visited_urls r) ->
  records_of web links recs ->
  exists r',
    explore_links web max_depth (S (S fuel)) depth links r = (Returns tt, r') /\
    scraped_pages r' = scraped_pages r ++ recs.
Proof.
  intros Hdepth. revert recs r.
  induction links as [|link links IH]; intros recs r Hnodup Hnew Hrecs.
  - destruct recs; [|done]. exists r. by rewrite app_nil_r.
  - destruct recs as [|rec recs]; [done|].
    unfold records_of in Hrecs. simpl in Hrecs. injection Hrecs as Hrec Hrecs.
    unfold record_at in Hrec.
    destruct (web link) as [e|p] eqn:Hweb; [done|].
    destruct (body_text p) as [e|c] eqn:Hbody; [done|].
    injection Hrec as <-.
    apply NoDup_cons in Hnodup as [Hfirst Hnodup].
    rewrite explore_links_cons.
    rewrite (frame_enter web max_depth _ link (depth + 1) r p c);
      [|lia|apply Hnew; by left|done|done].
    rewrite (try_except_returns _ _ (entered r link p c))
      by (apply explore_too_deep; lia).
    destruct (IH recs (entered r link p c) Hnodup) as (r' & Hloop & Hadded);
      [|done|].
    + intros l Hl. simpl. rewrite elem_of_union, elem_of_singleton.
      intros [->|Hseen]; [done|]. apply (Hnew l); [by right|done].
    + exists r'. split; [done|]. rewrite Hadded. simpl. by rewrite <- app_assoc.
Qed.

End Depth.

(** C5.  A call beyond the depth bound does nothing: no request, no
    record, no link followed.  Every record of a run belongs to a location
    discovered from the seed through at most [max_depth] links.  With
    [max_depth = 0] and a seed that renders, the result is the seed's
    record alone; with [max_depth = 1] it is the seed's record followed by
    those of its direct candidates (distinct locations other than the seed
    that render), in the order of the candidates. *)
Theorem depth_bound (web : str -> nav) (max_depth : Z) :
  (forall fuel url depth r,
      max_depth < depth ->
      recursive_scrape web max_depth (S fuel) url depth r = (Returns tt, r)) /\
  (forall seed d, exists recs d' ls,
      navigate_and_extract web seed max_depth d = (Returns recs, d') /\
      records_of web ls recs /\
      forall l, l ∈ ls ->
        exists n, Z.of_nat n <= max_depth /\ reach web seed n l) /\
  (forall seed d p c,
      max_depth = 0 ->
      web seed = Loaded p -> body_text p = Gives c ->
      fst (navigate_and_extract web seed max_depth d) = Returns [details p c]) /\
  (forall seed d p c recs,
      max_depth = 1 ->
      web seed = Loaded p -> body_text p = Gives c ->
      NoDup (candidates p) -> seed ∉ candidates p ->
      records_of web (candidates p) recs ->
      fst (navigate_and_extract web seed max_depth d)
        = Returns (details p c :: recs)).
Proof.
  split; [|split; [|split]].
  - intros. by apply scrape_too_deep.
  - intros seed d.
    destruct (origins web max_depth seed (call_budget max_depth) d)
      as (ls & _ & _ & Hrecs & Hreach).
    exists (scraped_pages (final web max_depth seed d)),
      (driver (final web max_depth seed d)), ls.
    split; [apply navigate_and_extract_eq|]. by split.
  - intros seed d p c -> Hweb Hbody.
    rewrite navigate_and_extract_eq. cbn [fst]. f_equal. unfold final.
    change (call_budget 0) with 2%nat.
    rewrite (frame_enter web 0 _ seed 0 _ p c);
      [|lia|apply not_elem_of_empty|done|done].
    by rewrite try_except_state, explore_too_deep by lia.
  - intros seed d p c recs -> Hweb Hbody Hnodup Hseed Hrecs.
    rewrite navigate_and_extract_eq. cbn [fst]. f_equal. unfold final.
    change (call_budget 1) with 3%nat.
    rewrite (frame_enter web 1 _ seed 0 _ p c);
      [|lia|apply not_elem_of_empty|done|done].
    rewrite try_except_state.
    destruct (explore_last_level web 1 O 0 (candidates p) recs
                (entered (start d) seed p c)) as (r' & -> & Hadded);
      [lia|done| |done|done].
    intros l Hl. simpl. rewrite elem_of_union, elem_of_singleton.
    intros [->|Hin]; [done|]. by apply not_elem_of_empty in Hin.
Qed.

(** C5 on the small tree, with depth bounds 0 and 1. *)
Lemma depth_bound_witness :
  recursive_scrape web_tree 1 1 "http://d.test/" 2 (start fresh_driver)
    = (Returns tt, start fresh_driver) /\
  fst (navigate_and_extract web_tree "http://a.test/" 0 fresh_driver)
    = Returns [details (simple_page "A" "http://a.test/" "text of a"
                          ["http://b.test/"; "http://c.test/"]) "text of a"] /\
  fst (navigate_and_extract web_tree "http://a.test/" 1 fresh_driver)
    = Returns [details (simple_page "A" "http://a.test/" "text of a"
                          ["http://b.test/"; "http://c.test/"]) "text of a";
               details (simple_page "B" "http://b.test/" "text of b"
                          ["http://d.test/"]) "text of b";
               details (simple_page "C" "http://c.test/" "text of c" [])
                 "text of c"].
Proof.
  split; [|split].
  - destruct (depth_bound web_tree 1) as [Hdeep _]. apply Hdeep. lia.
  - destruct (depth_bound web_tree 0) as (_ & _ & Hzero & _).
    by apply Hzero.
  - destruct (depth_bound web_tree 1) as (_ & _ & _ & Hone).
    apply (Hone "http://a.test/" fresh_driver _ "text of a"); try reflexivity.
    + vm_compute. repeat constructor; by (intros ?%elem_of_nil)
        || (intros [[=]|?%elem_of_nil]%elem_of_cons).
    + vm_compute. intros Hin. 
      repeat (apply elem_of_cons in Hin as [[=]|Hin]).
      by apply elem_of_nil in Hin.
Defined.



(** * Further properties of the crawl *)

(** ** The log of requests *)

Section Requests.

Variable web : str -> nav.
Variable max_depth : Z.

Lemma record_at_loaded url p c :
  web url = Loaded p -> body_text p = Gives c ->
  record_at web url = Some (details p c).
Proof. intros Hweb Hbody. unfold record_at. by rewrite Hweb, Hbody. Qed.

Lemma record_at_refused url e :
  web url = NavError e -> record_at web url = None.
Proof. intros Hweb. unfold record_at. by rewrite Hweb. Qed.

Lemma record_at_unread url p e :
  web url = Loaded p -> body_text p = Fails e -> record_at web url = None.
Proof. intros Hweb Hbody. unfold record_at. by rewrite Hweb, Hbody. Qed.

Lemma filter_snoc_yields (new : list str) url :
  is_Some (record_at web url) ->
  filter (fun l => is_Some (record_at web l)) (new ++ [url]) =
  filter (fun l => is_Some (record_at web l)) new ++ [url].
Proof. intros Hurl. by rewrite filter_app, filter_cons_True. Qed.

Lemma filter_snoc_fails (new : list str) url :
  record_at web url = None ->
  filter (fun l => is_Some (record_at web l)) (new ++ [url]) =
  filter (fun l => is_Some (record_at web l)) new.
Proof.
  intros Hurl. rewrite filter_app, filter_cons_False, filter_nil, app_nil_r; [done|].
  rewrite Hurl. by intros [? ?].
Qed.

(** What a run adds to the log of requests: the records are those of the
    requests that yield one, in the order of the requests; the visited
    locations are these requests; every request is for a location
    discovered within the depth bound. *)
Lemma request_log seed fuel d :
  exists new : list str,
    let r := snd (recursive_scrape web max_depth fuel seed 0 (start d)) in
    requests (driver r) = requests d ++ new /\
    records_of web (filter (fun l => is_Some (record_at web l)) new)
      (scraped_pages r) /\
    (forall l, l ∈ visited_urls r <-> l ∈ new /\ is_Some (record_at web l)) /\
    (forall l, l ∈ new ->
       exists n, Z.of_nat n <= max_depth /\ reach web seed n l).
Proof.
  pose (I := fun r : Run => exists new : list str,
    requests (driver r) = requests d ++ new /\
    records_of web (filter (fun l => is_Some (record_at web l)) new)
      (scraped_pages r) /\
    (forall l, l ∈ visited_urls r <-> l ∈ new /\ is_Some (record_at web l)) /\
    (forall l, l ∈ new ->
       exists n, Z.of_nat n <= max_depth /\ reach web seed n l)).
  pose (Q := fun (url : str) (depth : Z) =>
    exists n, Z.of_nat n = depth /\ reach web seed n url).
  change (I (snd (recursive_scrape web max_depth fuel seed 0 (start d)))).
  assert (Hfail : forall r url depth,
    I r -> Q url depth -> depth <= max_depth -> record_at web url = None ->
    forall pg, I {| driver := {| page := pg;
                                 requests := requests (driver r) ++ [url] |};
                    scraped_pages := scraped_pages r;
                    visited_urls := visited_urls r |}).
  { intros r url depth (new & Hreq & Hrecs & Hvis & Hreach) (n & Hn & Hurl)
      Hdepth Hnone pg.
    exists (new ++ [url]). split; [|split; [|split]]; simpl.
    - by rewrite Hreq, app_assoc.
    - by rewrite filter_snoc_fails.
    - intros l. rewrite Hvis, elem_of_app, list_elem_of_singleton.
      split; [tauto|]. intros [[?| ->] Hl]; [done|].
      rewrite Hnone in Hl. by destruct Hl.
    - intros l [Hl|Hl]%elem_of_app; [by apply Hreach|].
      apply list_elem_of_singleton in Hl as ->. exists n. split; [lia|done]. }
  apply (scrape_preserves web max_depth I Q).
  - intros r url depth e HI HQ Hdepth _ Hweb.
    apply (Hfail r url depth HI HQ Hdepth (record_at_refused url e Hweb)).
  - intros r url depth p e HI HQ Hdepth _ Hweb Hbody.
    apply (Hfail r url depth HI HQ Hdepth (record_at_unread url p e Hweb Hbody)).
  - intros r url depth p c (new & Hreq & Hrecs & Hvis & Hreach) (n & Hn & Hurl)
      Hdepth Hnew Hweb Hbody.
    pose proof (record_at_loaded url p c Hweb Hbody) as Hrec.
    exists (new ++ [url]). split; [|split; [|split]]; simpl.
    + by rewrite Hreq, app_assoc.
    + rewrite filter_snoc_yields by (by rewrite Hrec).
      unfold records_of in *. rewrite !fmap_app, Hrecs. simpl. by rewrite Hrec.
    + intros l. rewrite elem_of_union, elem_of_singleton, Hvis, elem_of_app,
        list_elem_of_singleton.
      split; [|tauto]. intros [-> |[? ?]]; [|tauto].
      split; [by right|]. by rewrite Hrec.
    + intros l [Hl|Hl]%elem_of_app; [by apply Hreach|].
      apply list_elem_of_singleton in Hl as ->. exists n. split; [lia|done].
  - intros url depth p c link (n & Hn & Hurl) Hdepth Hweb Hbody Hlink.
    exists (S n). split; [lia|]. by eapply reach_link.
  - exists []. split; [|split; [|split]]; simpl.
    + by rewrite app_nil_r.
    + done.
    + intros l. rewrite elem_of_nil. split; [|tauto].
      intros Hin. by apply not_elem_of_empty in Hin.
    + intros l Hl. by apply elem_of_nil in Hl.
  - exists O. split; [done|]. apply reach_seed.
Qed.

End Requests.

(** X1.  In a run that stays within the interpreter's recursion limit,
    the records are those of the locations it requested that render and
    yield their details, one record each and in the order of the requests
    (so a page's record precedes those of the pages reached through it);
    the locations visited are exactly these.  Such a run is the run of
    [navigate_and_extract]. *)
Theorem records_follow_requests (room : nat) (web : str -> nav) (seed : str)
    (max_depth : Z) (d : Driver) :
  (Z.to_nat (max_depth + 1) < room)%nat ->
  exists recs d' new,
    navigate_and_extract_within room web seed max_depth d = (Returns recs, d') /\
    navigate_and_extract web seed max_depth d = (Returns recs, d') /\
    requests d' = requests d ++ new /\
    records_of web (filter (fun l => is_Some (record_at web l)) new) recs /\
    (forall l, l ∈ visited_urls (final_within room web max_depth seed d) <->
               l ∈ new /\ is_Some (record_at web l)).
Proof.
  intros Hroom.
  destruct (request_log web max_depth seed room d)
    as (new & Hreq & Hrecs & Hvis & _).
  exists (scraped_pages (final_within room web max_depth seed d)),
    (driver (final_within room web max_depth seed d)), new.
  split; [by apply navigate_and_extract_within_eq|].
  split; [|by split].
  rewrite <- (navigate_and_extract_within_enough room) by done.
  by apply navigate_and_extract_within_eq.
Qed.

Lemma records_follow_requests_witness :
  exists recs d' new,
    navigate_and_extract_within 4 web_tree "http://a.test/" 2 fresh_driver
      = (Returns recs, d') /\
    requests d' = [] ++ new /\
    records_of web_tree
      (filter (fun l => is_Some (record_at web_tree l)) new) recs.
Proof.
  destruct (records_follow_requests 4 web_tree "http://a.test/" 2 fresh_driver)
    as (recs & d' & new & Hrun & _ & Hreq & Hrecs & _); [vm_compute; lia|].
  by exists recs, d', new.
Defined.

(** X2.  The browser is never asked for a location that lies beyond the
    depth bound: every request of a run, failed ones included, is for a
    location discovered from the seed through at most [max_depth] links of
    pages that were scraped. *)
Theorem requests_within_depth (web : str -> nav) (seed : str)
    (max_depth : Z) (d : Driver) :
  exists new,
    requests (snd (navigate_and_extract web seed max_depth d))
      = requests d ++ new /\
    Forall (fun l => exists n, Z.of_nat n <= max_depth /\ reach web seed n l)
      new.
Proof.
  destruct (request_log web max_depth seed (call_budget max_depth) d)
    as (new & Hreq & _ & _ & Hreach).
  exists new. rewrite navigate_and_extract_eq. cbn [snd].
  split; [done|]. by apply Forall_forall.
Qed.

(** ** Running a crawl frame by frame *)

Section Stepping.

Variable web : str -> nav.
Variable max_depth : Z.

Lemma frame_enter_returns fuel url depth r p c r' :
  depth <= max_depth -> url ∉ visited_urls r ->
  web url = Loaded p -> body_text p = Gives c ->
  explore_links web max_depth fuel depth (candidates p) (entered r url p c)
    = (Returns tt, r') ->
  recursive_scrape web max_depth (S fuel) url depth r = (Returns tt, r').
Proof.
  intros Hdepth Hnew Hweb Hbody Hloop.
  rewrite (frame_enter web max_depth fuel url depth r p c) by done.
  by apply try_except_returns.
Qed.

Lemma explore_links_cons_returns fuel depth link links r r1 r2 :
  recursive_scrape web max_depth fuel link (depth + 1) r = (Returns tt, r1) ->
  explore_links web max_depth fuel depth links r1 = (Returns tt, r2) ->
  explore_links web max_depth fuel depth (link :: links) r = (Returns tt, r2).
Proof. intros Hcall Hrest. by rewrite explore_links_cons, Hcall. Qed.

Lemma explore_links_nil fuel depth r :
  explore_links web max_depth fuel depth [] r = (Returns tt, r).
Proof. reflexivity. Qed.



End Stepping.

(** X3.  When the seed renders and the depth bound is not negative, the
    first record of the result is the seed's. *)
Theorem seed_record_first (web : str -> nav) (seed : str) (max_depth : Z)
    (d : Driver) (p : Page) (c : str) :
  0 <= max_depth -> web seed = Loaded p -> body_text p = Gives c ->
  exists more d',
    navigate_and_extract web seed max_depth d
      = (Returns (details p c :: more), d').
Proof.
  intros Hdepth Hweb Hbody. rewrite navigate_and_extract_eq.
  assert (Hfirst : exists more,
    scraped_pages (final web max_depth seed d) = details p c :: more);
    [|destruct Hfirst as [more ->]; by eexists _, _].
  unfold final, call_budget.
  rewrite (frame_enter web max_depth _ seed 0 _ p c);
    [|lia|apply not_elem_of_empty|done|done].
  rewrite try_except_state.
  destruct (explore_links_extends web max_depth (Z.to_nat (max_depth + 1)) 0
              (candidates p) (entered (start d) seed p c))
    as (_ & [more Hmore] & _).
  exists more. by rewrite Hmore.
Qed.

Lemma seed_record_first_witness :
  exists more d',
    navigate_and_extract web_tree "http://a.test/" 2 fresh_driver
      = (Returns (details (simple_page "A" "http://a.test/" "text of a"
                             ["http://b.test/"; "http://c.test/"]) "text of a"
                  :: more), d').
Proof.
  apply (seed_record_first web_tree "http://a.test/" 2 fresh_driver);
    [lia|reflexivity|reflexivity].
Defined.



(** Runs the frames of a crawl whose pages are given by hypotheses. *)
Ltac in_visited :=
  simpl; rewrite ?elem_of_union, ?elem_of_singleton, ?elem_of_empty;
  intuition congruence.

Ltac step_frame :=
  lazymatch goal with
  | |- explore_links _ _ _ _ [] _ = _ => apply explore_links_nil
  | |- explore_links _ _ _ _ (_ :: _) _ = _ =>
      first [ apply explore_too_deep; lia | eapply explore_links_cons_returns ]
  | |- explore_links _ _ _ _ _ _ = _ => apply explore_too_deep; lia
  | |- recursive_scrape _ _ _ _ _ _ = _ =>
      first
        [ apply scrape_too_deep; lia
        | apply scrape_visited; in_visited
        | eapply frame_enter_returns;
            [lia | in_visited | eassumption | eassumption |];
            try match goal with
                | H : candidates ?p = _ |- context [candidates ?p] => rewrite H
                end ]
  end.

Ltac run_frames := repeat step_frame.

(** X5.  A larger depth bound can lose a page.  When [s] names [a] and
    [x], [a] names [b], [b] names [x] and [x] names [y], a run with bound 2
    records [y]; a run with bound 3 first meets [x] at depth 3, does not
    follow its links, and never returns to it: [y] is not recorded. *)
Theorem deeper_bound_can_lose_pages (web : str -> nav) (d : Driver)
    (s a b x y : str) (ps pa pb px py : Page) (cs ca cb cx cy : str) :
  NoDup [s; a; b; x; y] ->
  web s = Loaded ps -> body_text ps = Gives cs -> candidates ps = [a; x] ->
  web a = Loaded pa -> body_text pa = Gives ca -> candidates pa = [b] ->
  web b = Loaded pb -> body_text pb = Gives cb -> candidates pb = [x] ->
  web x = Loaded px -> body_text px = Gives cx -> candidates px = [y] ->
  web y = Loaded py -> body_text py = Gives cy ->
  fst (navigate_and_extract web s 2 d)
    = Returns [details ps cs; details pa ca; details pb cb; details px cx;
               details py cy] /\
  fst (navigate_and_extract web s 3 d)
    = Returns [details ps cs; details pa ca; details pb cb; details px cx].
Proof.
  intros Hdistinct Hs Hcs Hls Ha Hca Hla Hb Hcb Hlb Hx Hcx Hlx Hy Hcy.
  rewrite !NoDup_cons, !not_elem_of_cons in Hdistinct.
  destruct Hdistinct as ((? & ? & ? & ? & _) & (? & ? & ? & _) & (? & ? & _)
                         & (? & _) & _).
  rewrite !navigate_and_extract_eq. cbn [fst]. unfold final.
  change (call_budget 2) with 4%nat. change (call_budget 3) with 5%nat.
  split; f_equal.
  - assert (Hrun : exists r,
      recursive_scrape web 2 4 s 0 (start d) = (Returns tt, r) /\
      scraped_pages r = [details ps cs; details pa ca; details pb cb;
                         details px cx; details py cy]);
      [|destruct Hrun as (r & Hrun & Hrecs); rewrite Hrun; exact Hrecs].
    eexists. split; [run_frames|reflexivity].
  - assert (Hrun : exists r,
      recursive_scrape web 3 5 s 0 (start d) = (Returns tt, r) /\
      scraped_pages r = [details ps cs; details pa ca; details pb cb;
                         details px cx]);
      [|destruct Hrun as (r & Hrun & Hrecs); rewrite Hrun; exact Hrecs].
    eexists. split; [run_frames|reflexivity].
Qed.

Lemma deeper_bound_can_lose_pages_witness :
  result_of (navigate_and_extract web_detour "http://s.test/" 2 fresh_driver)
    = result_of (navigate_and_extract web_detour "http://s.test/" 3 fresh_driver)
      ++ [details (simple_page "Y" "http://y.test/" "text of y" []) "text of y"].
Proof.
  assert (Hdistinct : NoDup [lit "http://s.test/"; lit "http://a.test/";
                             lit "http://b.test/"; lit "http://x.test/";
                             lit "http://y.test/"]).
  { refine (bool_decide_unpack _ _). vm_compute. exact I. }
  destruct (deeper_bound_can_lose_pages web_detour fresh_driver
              "http://s.test/" "http://a.test/" "http://b.test/"
              "http://x.test/" "http://y.test/"
              (simple_page "S" "http://s.test/" "text of s"
                 ["http://a.test/"; "http://x.test/"])
              (simple_page "A" "http://a.test/" "text of a" ["http://b.test/"])
              (simple_page "B" "http://b.test/" "text of b" ["http://x.test/"])
              (simple_page "X" "http://x.test/" "text of x" ["http://y.test/"])
              (simple_page "Y" "http://y.test/" "text of y" [])
              "text of s" "text of a" "text of b" "text of x" "text of y"
              Hdistinct eq_refl eq_refl eq_refl eq_refl eq_refl eq_refl
              eq_refl eq_refl eq_refl eq_refl eq_refl eq_refl eq_refl eq_refl)
    as [Htwo Hthree].
  unfold result_of. by rewrite Htwo, Hthree.
Defined.

(** * Further properties of the extractor and the report *)

Lemma links_read_srcs imgs (srcs : list str) :
  Forall2 (fun img s => src img = Gives (Some s) /\ s <> []) imgs srcs ->
  links_read imgs = Gives (Some <$> srcs).
Proof.
  induction 1 as [|img s imgs srcs [Hsrc Hs] _ IH]; simpl; [done|].
  unfold link_of. rewrite Hsrc. simpl.
  rewrite (bool_decide_eq_false_2 _ Hs). simpl. by rewrite IH.
Qed.

Lemma links_read_hrefs imgs (hrefs : list (option str)) :
  Forall2 (fun img href =>
             (src img = Gives None \/ src img = Gives (Some [])) /\
             parent_href img = Gives href) imgs hrefs ->
  links_read imgs = Gives hrefs.
Proof.
  induction 1 as [|img href imgs hrefs [Hsrc Hhref] _ IH]; simpl; [done|].
  unfold link_of. destruct Hsrc as [->| ->]; simpl; by rewrite Hhref, IH.
Qed.

Lemma keeps_srcs (srcs : list str) :
  omap (fun link => if keeps link then link else None) (Some <$> srcs) =
  filter (fun s => startswith "http" s = true) srcs.
Proof.
  induction srcs as [|s srcs IH]; [done|].
  rewrite fmap_cons.
  change (omap ?f (?x :: ?l)) with
    (match f x with Some y => y :: omap f l | None => omap f l end).
  rewrite IH. unfold keeps, truthy.
  destruct (startswith "http" s) eqn:Hhttp.
  - rewrite filter_cons_True by done.
    destruct (bool_decide_reflect (s = [])) as [->|_]; done.
  - rewrite filter_cons_False by (by rewrite Hhttp).
    by rewrite andb_false_r.
Qed.

(** X6.  Where the link of an image comes from.  An image with a non-empty
    [src] contributes its [src], and its parent is not looked at: the
    result is the same whatever reading the parent would give, an exception
    included.  An image without [src], or with an empty one, contributes
    the [href] of its parent, if that begins with [http]. *)
Theorem image_link_sources (d : Driver) (imgs : list Img) :
  img_elements (page d) = Gives imgs ->
  (forall srcs : list str,
      Forall2 (fun img s => src img = Gives (Some s) /\ s <> []) imgs srcs ->
      extract_image_links d =
        (Returns (filter (fun s => startswith "http" s = true) srcs), d)) /\
  (forall hrefs : list (option str),
      Forall2 (fun img href =>
                 (src img = Gives None \/ src img = Gives (Some [])) /\
                 parent_href img = Gives href) imgs hrefs ->
      extract_image_links d =
        (Returns (omap (fun href => if keeps href then href else None) hrefs), d)).
Proof.
  intros Himgs. rewrite extract_image_links_cases, Himgs. split.
  - intros srcs Hsrcs. by rewrite (links_read_srcs imgs srcs), keeps_srcs.
  - intros hrefs Hhrefs. by rewrite (links_read_hrefs imgs hrefs).
Qed.

Lemma image_link_sources_witness :
  extract_image_links
    (showing (page_of_imgs [img_orphan "https://example.com/x"; img_orphan "/x"]))
  = (Returns [lit "https://example.com/x"],
     showing (page_of_imgs [img_orphan "https://example.com/x"; img_orphan "/x"]))
  /\
  extract_image_links
    (showing (page_of_imgs [img_in_anchor "http://a.test/"; img_in_anchor "#top"]))
  = (Returns [lit "http://a.test/"],
     showing (page_of_imgs [img_in_anchor "http://a.test/"; img_in_anchor "#top"])).
Proof.
  split.
  - destruct (image_link_sources
                (showing (page_of_imgs [img_orphan "https://example.com/x";
                                        img_orphan "/x"])) _ eq_refl)
      as [Hsrcs _].
    apply (Hsrcs [lit "https://example.com/x"; lit "/x"]).
    repeat constructor; done.
  - destruct (image_link_sources
                (showing (page_of_imgs [img_in_anchor "http://a.test/";
                                        img_in_anchor "#top"])) _ eq_refl)
      as [_ Hhrefs].
    apply (Hhrefs [Some (lit "http://a.test/"); Some (lit "#top")]).
    repeat constructor; by left.
Defined.

Lemma flatten_app (xs ys : list str) :
  flatten (xs ++ ys) = flatten xs ++ flatten ys.
Proof.
  induction xs as [|x xs IH]; [done|].
  change (x ++ flatten (xs ++ ys) = (x ++ flatten xs) ++ flatten ys).
  by rewrite IH, string_app_assoc.
Qed.

(** X7.  Records added at the end of the list only add blocks at the end
    of the report: the blocks of the earlier records keep their text and
    their numbers, and the new blocks are numbered on from there. *)
Theorem report_of_appended_records (xs ys : list PageDetails) :
  snd (save_scraped_data (xs ++ ys)) =
  snd (save_scraped_data xs) ++
  flatten (imap (fun i page => block (Z.of_nat (length xs + i) + 1) page) ys).
Proof.
  unfold save_scraped_data. rewrite !write_loop. cbn [snd].
  rewrite imap_app, flatten_app.
  rewrite app_nil_l. do 2 f_equal.
Qed.

Lemma slice_to_short n (s : str) :
  (length s <= n)%nat -> slice_to n s = s.
Proof. intros Hlen. unfold slice_to. by apply take_ge. Qed.

(** X8.  A content of at most 1000 characters is written whole, and the
    three dots follow it all the same, although nothing was cut. *)
Theorem short_content_written_whole (scraped_data : list PageDetails) :
  Forall (fun page => (length (pd_page_content page) <= 1000)%nat)
    scraped_data ->
  save_scraped_data scraped_data =
    (Returns tt,
     flatten (imap (fun i page =>
                ("Page " ++ lit (pretty (Z.of_nat i + 1)) ++ ":" ++ newline) ++
                ("Title: " ++ pd_title page ++ newline) ++
                ("URL: " ++ pd_url page ++ newline) ++
                ("Content: " ++ pd_page_content page
                   ++ "..." ++ newline ++ newline))
              scraped_data)).
Proof.
  intros Hshort. unfold save_scraped_data. rewrite write_loop.
  rewrite app_nil_l. do 2 f_equal.
  apply imap_ext. intros i page Hpage. unfold block.
  rewrite slice_to_short; [done|].
  by apply (proj1 (Forall_lookup _ _) Hshort i).
Qed.

Lemma short_content_written_whole_witness :
  save_scraped_data
    [{| pd_title := "A"; pd_url := "http://a.test/"; pd_page_content := "short" |}]
  = (Returns tt,
     ("Page " ++ lit (pretty 1) ++ ":" ++ newline) ++
     ("Title: " ++ "A" ++ newline) ++
     ("URL: " ++ "http://a.test/" ++ newline) ++
     ("Content: " ++ "short" ++ "..." ++ newline ++ newline) ++ "").
Proof.
  apply (short_content_written_whole
           [{| pd_title := "A"; pd_url := "http://a.test/";
               pd_page_content := "short" |}]).
  constructor; [vm_compute; lia|constructor].
Defined.

(** * The scraper object and [main] *)


Lemma scraper_navigate_started web url max_depth d s :
  self_driver s = Some d ->
  scraper_navigate web url max_depth s =
  (Returns (scraped_pages (final web max_depth url d)),
   {| self_driver := Some (driver (final web max_depth url d));
      quit_calls := quit_calls s; report_file := report_file s |}).
Proof.
  intros Hdriver. unfold scraper_navigate.
  by rewrite Hdriver, navigate_and_extract_eq.
Qed.

(** ** Writing the report to a file system that can fail *)












(** X9.  When the browser cannot be started, [main] returns all the same:
    nothing is crawled, no report is written (a report of an earlier run
    stays as it is) and [quit] is not called. *)
Theorem main_without_browser (web : str -> nav) (chrome : Chrome) (disk : Disk)
    (s : Process) (e : exn) :
  launch chrome = Fails e ->
  main web chrome disk s =
    (Returns tt,
     {| self_driver := None; quit_calls := quit_calls s;
        report_file := report_file s |}).
Proof.
  intros Hlaunch.
  unfold main, try_finally, try_except, bind, new_scraper, modify, setup_driver.
  by rewrite Hlaunch.
Qed.

Lemma main_without_browser_witness :
  main web_shop chrome_missing disk_ok fresh_process
    = (Returns tt, fresh_process).
Proof.
  apply (main_without_browser web_shop chrome_missing disk_ok fresh_process
           WebDriverException).
  reflexivity.
Defined.



(** X11.  The visited set belongs to one call: a second
    [navigate_and_extract] on the same scraper, from the same location and
    with the same bound, returns the same records as the first, wherever
    the first call left the browser. *)
Theorem navigate_twice_same_records (web : str -> nav) (url : str)
    (max_depth : Z) (s : Process) (d : Driver) :
  self_driver s = Some d ->
  exists recs s',
    (first_run <- scraper_navigate web url max_depth ;;
     second_run <- scraper_navigate web url max_depth ;;
     ret (first_run, second_run)) s = (Returns (recs, recs), s').
Proof.
  intros Hdriver. unfold bind.
  rewrite (scraper_navigate_started web url max_depth d) by done.
  rewrite (scraper_navigate_started web url max_depth
             (driver (final web max_depth url d))) by done.
  eexists _, _. unfold ret. do 3 f_equal. unfold final.
  by destruct (scrape_deterministic web web max_depth (fun _ => eq_refl)
                 (call_budget max_depth) url 0
                 (start (driver (snd (recursive_scrape web max_depth
                                        (call_budget max_depth) url 0 (start d)))))
                 (start d)) as [_ [-> _]].
Qed.

Lemma navigate_twice_same_records_witness :
  exists recs s',
    (first_run <- scraper_navigate web_cycle "http://a.test/" 2 ;;
     second_run <- scraper_navigate web_cycle "http://a.test/" 2 ;;
     ret (first_run, second_run))
      {| self_driver := Some fresh_driver; quit_calls := 0; report_file := None |}
    = (Returns (recs, recs), s').
Proof.
  apply (navigate_twice_same_records web_cycle "http://a.test/" 2
           {| self_driver := Some fresh_driver; quit_calls := 0;
              report_file := None |} fresh_driver).
  reflexivity.
Defined.

(** * The crawl follows the extractor's links only *)

Lemma candidates_http (p : Page) (l : str) :
  l ∈ candidates p -> startswith "http" l = true.
Proof.
  unfold candidates.
  destruct (img_elements p) as [e|imgs]; [by intros ?%elem_of_nil|].
  destruct (links_read imgs) as [e|ls]; [by intros ?%elem_of_nil|].
  rewrite list_elem_of_omap. intros ([s|] & _ & Hkept); [|done].
  unfold keeps in Hkept.
  destruct (truthy (Some s)); [|done]. simpl in Hkept.
  destruct (startswith "http" s) eqn:Hhttp; [|done]. by injection Hkept as ->.
Qed.

(** X12.  Apart from the seed, which is requested as it is given, the
    browser is only ever asked for locations that begin with [http]. *)
Theorem followed_links_begin_with_http (web : str -> nav) (seed : str)
    (max_depth : Z) (d : Driver) :
  exists new,
    requests (snd (navigate_and_extract web seed max_depth d))
      = requests d ++ new /\
    Forall (fun l => l = seed \/ startswith "http" l = true) new.
Proof.
  rewrite navigate_and_extract_eq. cbn [snd]. unfold final.
  pose (I := fun r : Run => exists new : list str,
    requests (driver r) = requests d ++ new /\
    Forall (fun l => l = seed \/ startswith "http" l = true) new).
  pose (Q := fun (url : str) (depth : Z) =>
    url = seed \/ startswith "http" url = true).
  change (I (snd (recursive_scrape web max_depth (call_budget max_depth) seed 0
                    (start d)))).
  assert (Hstep : forall r url pg recs visited,
    I r -> Q url 0 ->
    I {| driver := {| page := pg; requests := requests (driver r) ++ [url] |};
         scraped_pages := recs; visited_urls := visited |}).
  { intros r url pg recs visited (new & Hreq & Hnew) Hurl.
    exists (new ++ [url]). simpl. split; [by rewrite Hreq, app_assoc|].
    apply Forall_app. split; [done|]. by apply Forall_singleton. }
  apply (scrape_preserves web max_depth I Q).
  - intros r url depth e HI HQ _ _ _. by apply Hstep.
  - intros r url depth p e HI HQ _ _ _ _. by apply Hstep.
  - intros r url depth p c HI HQ _ _ _ _. by apply Hstep.
  - intros url depth p c link _ _ _ _ Hlink. right. by eapply candidates_http.
  - exists []. split; [by rewrite app_nil_r|done].
  - by left.
Qed.
